(** * ocs2_core/initialization/SystemOperatingPoint.h

    A shallow embedding of the class template [ocs2::SystemOperatingPoint]
    and the properties of its operations: the two constructors,
    [initializeModel], [clone] and [getSystemOperatingTrajectories].

    - [scalar_t] is the C++ [double]: Rocq's primitive binary64 floats, whose
      comparisons are the IEEE ones (every comparison with NaN is false).
    - A fixed-size Eigen column vector is a [vec scalar_t n].
    - A [std::vector] is a [list]; [clear] and [emplace_back] are written out.
    - The body of a member function is a computation in a small state monad
      over the object and the three caller-owned output containers. The
      [const&] parameters are passed by value: the caller's arguments are
      objects of their own, and the three containers are three objects.
    - Objects that are reached through pointers ([clone] returns a pointer
      to a [new] object) live in a store, a [gmap] from addresses to objects.
    - The base class [SystemOperatingTrajectoriesBase] is declared in a
      header that is not part of the sources: its data, its constructors and
      its [initializeModel] are parameters of the development, collected in
      a class. *)

From Stdlib Require Import Floats.
From stdpp Require Import gmap list vector strings.

Module ocs2.

(** ** Scalars: [double] and its order *)

Definition scalar_t : Type := float.

(** [a <= b] and [a < b] on doubles. *)
Definition scalar_le (a b : scalar_t) : bool := PrimFloat.leb a b.
Definition scalar_lt (a b : scalar_t) : bool := PrimFloat.ltb a b.

(** [std::vector<T>::clear()] and [std::vector<T>::emplace_back(x)]. *)
Definition clear {A : Type} (v : list A) : list A := [].
Definition emplace_back {A : Type} (x : A) (v : list A) : list A := v ++ [x].

Definition scalar_array_t : Type := list scalar_t.

(** The time stamps of a trajectory are non-decreasing: every sample is [<=]
    its successor. *)
Fixpoint nondecreasing (t : scalar_array_t) : bool :=
  match t with
  | a :: (b :: _) as t' => scalar_le a b && nondecreasing t'
  | _ => true
  end.

(** Every sample is [>] its successor. *)
Fixpoint decreasing (t : scalar_array_t) : bool :=
  match t with
  | a :: (b :: _) as t' => scalar_lt b a && decreasing t'
  | _ => true
  end.

(** The last sample of [t], when there is one, is [<= a]. *)
Definition last_le (t : scalar_array_t) (a : scalar_t) : bool :=
  match last t with
  | Some b => scalar_le b a
  | None => true
  end.

(** ** Consecutive intervals *)

(** The time stamps that calls for the intervals [(start, final)] leave, in
    call order. *)
Definition stamps (intervals : list (scalar_t * scalar_t)) : scalar_array_t :=
  flat_map (λ i, [fst i; snd i]) intervals.

(** Each interval has [start <= final] and ends no later than the next one
    starts. *)
Fixpoint chained (intervals : list (scalar_t * scalar_t)) : bool :=
  match intervals with
  | [] => true
  | i :: rest =>
      scalar_le (fst i) (snd i) &&
      match rest with
      | [] => true
      | j :: _ => scalar_le (snd i) (fst j)
      end &&
      chained rest
  end.

(** ** What the missing headers declare *)

(** [SystemOperatingTrajectoriesBase.h] and [LogicRulesMachine.h] are not
    part of the sources. The development is parametric in what
    [SystemOperatingPoint] uses of them: the type of the mode-switch lookup
    [LogicRulesMachine<LOGIC_RULES_T>], which is owned by the caller and only
    passed through; the data of the base sub-object; the default and copy
    constructors of the base; and [Base::initializeModel], which acts on the
    base sub-object only (the members of the derived class are not visible
    to it). *)
Class SystemOperatingTrajectoriesBase : Type := {
  LogicRulesMachine : Type;
  Base : Type;
  Base_ctor : Base;
  Base_copy : Base → Base;
  Base_initializeModel :
    LogicRulesMachine → N → option string → Base → Base
}.

Section SystemOperatingPoint.

(** Template parameters. *)
Context (STATE_DIM INPUT_DIM : nat).
Context {B : SystemOperatingTrajectoriesBase}.

Definition state_vector_t : Type := vec scalar_t STATE_DIM.
Definition input_vector_t : Type := vec scalar_t INPUT_DIM.
Definition state_vector_array_t : Type := list state_vector_t.
Definition input_vector_array_t : Type := list input_vector_t.

(** [state_vector_t::Zero()] and [input_vector_t::Zero()]. *)
Definition state_vector_Zero : state_vector_t := vreplicate STATE_DIM 0%float.
Definition input_vector_Zero : input_vector_t := vreplicate INPUT_DIM 0%float.

(** ** The object *)

Record SystemOperatingPoint : Type := mkSystemOperatingPoint {
  base : Base;
  stateOperatingPoint_ : state_vector_t;
  inputOperatingPoint_ : input_vector_t
}.

(** [SystemOperatingPoint(stateOperatingPoint, inputOperatingPoint)] *)
Definition SystemOperatingPoint_ctor
    (stateOperatingPoint : state_vector_t)
    (inputOperatingPoint : input_vector_t) : SystemOperatingPoint :=
  {| base := Base_ctor;
     stateOperatingPoint_ := stateOperatingPoint;
     inputOperatingPoint_ := inputOperatingPoint |}.

(** [SystemOperatingPoint()], which delegates to the constructor above. *)
Definition SystemOperatingPoint_default : SystemOperatingPoint :=
  SystemOperatingPoint_ctor state_vector_Zero input_vector_Zero.

(** The implicit copy constructor: the base sub-object is copied by the
    base's copy constructor, the two members memberwise. *)
Definition SystemOperatingPoint_copy
    (other : SystemOperatingPoint) : SystemOperatingPoint :=
  {| base := Base_copy (base other);
     stateOperatingPoint_ := stateOperatingPoint_ other;
     inputOperatingPoint_ := inputOperatingPoint_ other |}.

(** ** The output containers and the state of a call *)

Record Trajectories : Type := mkTrajectories {
  timeTrajectory : scalar_array_t;
  stateTrajectory : state_vector_array_t;
  inputTrajectory : input_vector_array_t
}.

(** A member function runs on [*this] and on the containers it received by
    reference. *)
Definition Frame : Type := (SystemOperatingPoint * Trajectories)%type.

Definition M (A : Type) : Type := Frame → A * Frame.

#[global] Instance M_ret : MRet M := λ A (a : A) fr, (a, fr).
#[global] Instance M_bind : MBind M :=
  λ A B (k : A → M B) (c : M A) fr, let '(a, fr') := c fr in k a fr'.

Definition exec {A : Type} (c : M A) (fr : Frame) : Frame := snd (c fr).

(** Reading a data member of [*this]. *)
Definition member {A : Type} (field : SystemOperatingPoint → A) : M A :=
  λ fr, (field (fst fr), fr).

(** Updating the base sub-object of [*this]. *)
Definition on_base (f : Base → Base) : M unit :=
  λ '(this, out),
    (tt, ({| base := f (base this);
             stateOperatingPoint_ := stateOperatingPoint_ this;
             inputOperatingPoint_ := inputOperatingPoint_ this |}, out)).

(** Calling a mutating member of one of the three containers. *)
Definition on_timeTrajectory (f : scalar_array_t → scalar_array_t) : M unit :=
  λ '(this, out),
    (tt, (this, {| timeTrajectory := f (timeTrajectory out);
                   stateTrajectory := stateTrajectory out;
                   inputTrajectory := inputTrajectory out |})).

Definition on_stateTrajectory
    (f : state_vector_array_t → state_vector_array_t) : M unit :=
  λ '(this, out),
    (tt, (this, {| timeTrajectory := timeTrajectory out;
                   stateTrajectory := f (stateTrajectory out);
                   inputTrajectory := inputTrajectory out |})).

Definition on_inputTrajectory
    (f : input_vector_array_t → input_vector_array_t) : M unit :=
  λ '(this, out),
    (tt, (this, {| timeTrajectory := timeTrajectory out;
                   stateTrajectory := stateTrajectory out;
                   inputTrajectory := f (inputTrajectory out) |})).

(** ** The member functions *)

(** [initializeModel(logicRulesMachine, partitionIndex, algorithmName)]:
    the body is the single call [Base::initializeModel(...)]. The default
    argument [algorithmName = NULL] is [None]. *)
Definition initializeModel (logicRulesMachine : LogicRulesMachine)
    (partitionIndex : N) (algorithmName : option string) : M unit :=
  on_base (Base_initializeModel logicRulesMachine partitionIndex algorithmName).

(** [getSystemOperatingTrajectories(initialState, startTime, finalTime,
    timeTrajectory, stateTrajectory, inputTrajectory, concatOutput)]. *)
Definition getSystemOperatingTrajectories (initialState : state_vector_t)
    (startTime finalTime : scalar_t) (concatOutput : bool) : M unit :=
  (if bool_decide (concatOutput = false) then
     on_timeTrajectory clear ;;
     on_stateTrajectory clear ;;
     on_inputTrajectory clear
   else mret tt) ;;
  on_timeTrajectory (emplace_back startTime) ;;
  on_timeTrajectory (emplace_back finalTime) ;;
  x ← member stateOperatingPoint_ ;
  on_stateTrajectory (emplace_back x) ;;
  x ← member stateOperatingPoint_ ;
  on_stateTrajectory (emplace_back x) ;;
  u ← member inputOperatingPoint_ ;
  on_inputTrajectory (emplace_back u) ;;
  u ← member inputOperatingPoint_ ;
  on_inputTrajectory (emplace_back u).

(** A sequence of calls made on one object, in program order. *)
Inductive Call : Type :=
| call_initializeModel (logicRulesMachine : LogicRulesMachine)
    (partitionIndex : N) (algorithmName : option string)
| call_getSystemOperatingTrajectories (initialState : state_vector_t)
    (startTime finalTime : scalar_t) (concatOutput : bool).

Definition run_call (c : Call) : M unit :=
  match c with
  | call_initializeModel lrm i name => initializeModel lrm i name
  | call_getSystemOperatingTrajectories x s f concat =>
      getSystemOperatingTrajectories x s f concat
  end.

Fixpoint run_calls (cs : list Call) : M unit :=
  match cs with
  | [] => mret tt
  | c :: cs' => run_call c ;; run_calls cs'
  end.

(** ** Objects behind pointers *)

(** The free store: the objects created by [new], by address. *)
Abbreviation Store := (gmap positive SystemOperatingPoint).

(** [clone()] returns a [new SystemOperatingPoint] copy-constructed from
    [*this], at an address that is not in use. Calling through a
    pointer to no object has no defined result ([None]). *)
Definition clone (this : positive) (σ : Store) : option (positive * Store) :=
  o ← σ !! this ;
  let p := fresh (dom σ) in
  Some (p, <[p := SystemOperatingPoint_copy o]> σ).

(** [this->m(...)] for a member function [m] and caller-owned containers
    [out]: the result, the containers and the store after the call. *)
Definition call_on {A : Type} (this : positive) (m : M A)
    (out : Trajectories) (σ : Store) : option (A * Trajectories * Store) :=
  o ← σ !! this ;
  let '(a, (o', out')) := m (o, out) in
  Some (a, out', <[this := o']> σ).

(** The containers after a call through a pointer. *)
Definition output_of {A : Type} (r : option (A * Trajectories * Store)) :
    option Trajectories :=
  (λ x, snd (fst x)) <$> r.

(** The trajectory invariant on the lengths: the three containers are
    aligned. *)
Definition aligned (out : Trajectories) : Prop :=
  length (timeTrajectory out) = length (stateTrajectory out) ∧
  length (stateTrajectory out) = length (inputTrajectory out).

(** What the containers hold when the appends start. *)
Definition kept {A : Type} (concatOutput : bool) (v : list A) : list A :=
  if concatOutput then v else [].

(** The containers after [getSystemOperatingTrajectories]. *)
Definition appended (this : SystemOperatingPoint)
    (startTime finalTime : scalar_t) (concatOutput : bool)
    (out : Trajectories) : Trajectories :=
  {| timeTrajectory :=
       kept concatOutput (timeTrajectory out) ++ [startTime; finalTime];
     stateTrajectory :=
       kept concatOutput (stateTrajectory out) ++
       [stateOperatingPoint_ this; stateOperatingPoint_ this];
     inputTrajectory :=
       kept concatOutput (inputTrajectory out) ++
       [inputOperatingPoint_ this; inputOperatingPoint_ this] |}.

(** The trajectory invariant: aligned containers and non-decreasing time
    stamps. *)
Definition trajectory_invariant (out : Trajectories) : Prop :=
  aligned out ∧ nondecreasing (timeTrajectory out) = true.

(** Is the call one of [getSystemOperatingTrajectories]? *)
Definition is_getSystemOperatingTrajectories (c : Call) : bool :=
  match c with
  | call_getSystemOperatingTrajectories _ _ _ _ => true
  | call_initializeModel _ _ _ => false
  end.

(** A request for one interval: [initialState], [startTime], [finalTime]. *)
Definition Request : Type := (state_vector_t * (scalar_t * scalar_t))%type.

Definition interval (r : Request) : scalar_t * scalar_t := snd r.

(** The calls that build a trajectory over consecutive intervals: the call
    for the first interval with the given [concatOutput], the calls for the
    following ones with [concatOutput = true]. *)
Definition segment_calls (concatOutput : bool) (first : Request)
    (rest : list Request) : list Call :=
  call_getSystemOperatingTrajectories
    (fst first) (fst (interval first)) (snd (interval first)) concatOutput ::
  map (λ r, call_getSystemOperatingTrajectories
              (fst r) (fst (interval r)) (snd (interval r)) true) rest.

End SystemOperatingPoint.

Arguments mkSystemOperatingPoint {STATE_DIM INPUT_DIM B}.
Arguments base {STATE_DIM INPUT_DIM B}.
Arguments stateOperatingPoint_ {STATE_DIM INPUT_DIM B}.
Arguments inputOperatingPoint_ {STATE_DIM INPUT_DIM B}.
Arguments SystemOperatingPoint_ctor {STATE_DIM INPUT_DIM B}.
Arguments SystemOperatingPoint_default {STATE_DIM INPUT_DIM B}.
Arguments SystemOperatingPoint_copy {STATE_DIM INPUT_DIM B}.
Arguments mkTrajectories {STATE_DIM INPUT_DIM}.
Arguments timeTrajectory {STATE_DIM INPUT_DIM}.
Arguments stateTrajectory {STATE_DIM INPUT_DIM}.
Arguments inputTrajectory {STATE_DIM INPUT_DIM}.
Arguments exec {STATE_DIM INPUT_DIM B A}.
Arguments initializeModel {STATE_DIM INPUT_DIM B}.
Arguments getSystemOperatingTrajectories {STATE_DIM INPUT_DIM B}.
Arguments call_initializeModel {STATE_DIM B}.
Arguments call_getSystemOperatingTrajectories {STATE_DIM B}.
Arguments run_call {STATE_DIM INPUT_DIM B}.
Arguments run_calls {STATE_DIM INPUT_DIM B}.
Arguments clone {STATE_DIM INPUT_DIM B}.
Arguments call_on {STATE_DIM INPUT_DIM B A}.
Arguments output_of {STATE_DIM INPUT_DIM B A}.
Arguments aligned {STATE_DIM INPUT_DIM}.
Arguments trajectory_invariant {STATE_DIM INPUT_DIM}.
Arguments appended {STATE_DIM INPUT_DIM B}.
Arguments is_getSystemOperatingTrajectories {STATE_DIM B}.
Arguments interval {STATE_DIM}.
Arguments segment_calls {STATE_DIM B}.

(** ** One container passed twice *)

(** Modelled from the spec: the container types come from the missing base
    header; state and input vectors are "fixed-dimension numeric vectors", so
    for [STATE_DIM = INPUT_DIM] the types [state_vector_array_t] and
    [input_vector_array_t] are one type, and a caller can pass one container
    as both [stateTrajectory] and [inputTrajectory]. The section models the
    two reference parameters as addresses of containers of that type; every
    address holds a container, as every C++ reference refers to an object.
    The time container has another element type and stays a value. *)
Section SharedContainers.

Context (DIM : nat).
Context {B : SystemOperatingTrajectoriesBase}.

Abbreviation Containers := (positive → list (vec scalar_t DIM)).

Definition RefFrame : Type :=
  (SystemOperatingPoint DIM DIM * scalar_array_t * Containers)%type.

Definition MR (A : Type) : Type := RefFrame → A * RefFrame.

#[global] Instance MR_ret : MRet MR := λ A (a : A) fr, (a, fr).
#[global] Instance MR_bind : MBind MR :=
  λ A C (k : A → MR C) (c : MR A) fr, let '(a, fr') := c fr in k a fr'.

Definition member_ref {A : Type} (field : SystemOperatingPoint DIM DIM → A) :
    MR A :=
  λ fr, (field (fst (fst fr)), fr).

Definition on_time (f : scalar_array_t → scalar_array_t) : MR unit :=
  λ '(this, t, h), (tt, (this, f t, h)).

(** Calling a mutating member of the container that [r] refers to. *)
Definition on_container (r : positive)
    (f : list (vec scalar_t DIM) → list (vec scalar_t DIM)) : MR unit :=
  λ '(this, t, h),
    (tt, (this, t, λ a, if decide (a = r) then f (h r) else h a)).

(** [getSystemOperatingTrajectories] with [stateTrajectory] and
    [inputTrajectory] as references. *)
Definition getSystemOperatingTrajectories_by_reference
    (initialState : vec scalar_t DIM) (startTime finalTime : scalar_t)
    (stateTrajectory inputTrajectory : positive) (concatOutput : bool) :
    MR unit :=
  (if bool_decide (concatOutput = false) then
     on_time clear ;;
     on_container stateTrajectory clear ;;
     on_container inputTrajectory clear
   else mret tt) ;;
  on_time (emplace_back startTime) ;;
  on_time (emplace_back finalTime) ;;
  x ← member_ref stateOperatingPoint_ ;
  on_container stateTrajectory (emplace_back x) ;;
  x ← member_ref stateOperatingPoint_ ;
  on_container stateTrajectory (emplace_back x) ;;
  u ← member_ref inputOperatingPoint_ ;
  on_container inputTrajectory (emplace_back u) ;;
  u ← member_ref inputOperatingPoint_ ;
  on_container inputTrajectory (emplace_back u).

End SharedContainers.

Arguments getSystemOperatingTrajectories_by_reference {DIM B}.

(** ** The example of the specification: two states, one input *)

Module Example.

(** Modelled from the spec: the mode-switch lookup of
    [LogicRulesMachine.h], which is not part of the sources; it "accepts a
    time value, returns an active-subsystem identifier". *)
Definition LogicRulesMachine : Type := scalar_t → N.

(** Modelled from the spec: the data of [SystemOperatingTrajectoriesBase],
    whose header is not part of the sources; binding "stores the lookup
    reference and partition index", and "re-binding to a new
    partition/lookup is legal and simply overwrites prior binding". An
    object that was never bound holds neither. *)
Record Base : Type := mkBase {
  logicRulesMachine_ : option LogicRulesMachine;
  partitionIndex_ : option N
}.

#[local] Instance headers : SystemOperatingTrajectoriesBase := {|
  ocs2.LogicRulesMachine := LogicRulesMachine;
  ocs2.Base := Base;
  Base_ctor := {| logicRulesMachine_ := None; partitionIndex_ := None |};
  Base_copy := λ other, other;
  Base_initializeModel := λ logicRulesMachine partitionIndex algorithmName _,
    {| logicRulesMachine_ := Some logicRulesMachine;
       partitionIndex_ := Some partitionIndex |}
|}.

(** A lookup with a switch at time 1. *)
Definition switch_at_1 : LogicRulesMachine :=
  λ t, if scalar_lt t 1%float then 0%N else 1%N.

(** The operating point [state = (1.0, -1.0)], [input = (0.5)]. *)
Definition x_op : state_vector_t 2 := [# 1%float; (-1)%float].
Definition u_op : input_vector_t 1 := [# 0.5%float].

Definition point : SystemOperatingPoint 2 1 :=
  SystemOperatingPoint_ctor x_op u_op.

(** The same operating point in an object bound to partition 3. *)
Definition bound_point : SystemOperatingPoint 2 1 :=
  fst (exec (initializeModel switch_at_1 3%N None)
         (point, mkTrajectories [] [] [])).

(** Containers that already hold one segment, from time -2 to time 0. *)
Definition segment : Trajectories 2 1 :=
  mkTrajectories [(-2)%float; 0%float] [x_op; x_op] [u_op; u_op].

(** Containers whose time stamps are out of order. *)
Definition disordered : Trajectories 2 1 :=
  mkTrajectories [5%float; 3%float] [x_op; x_op] [u_op; u_op].

(** A free store with one object, the bound one. *)
Definition store : gmap positive (SystemOperatingPoint 2 1) :=
  {[ 1%positive := bound_point ]}.

(** Some initial states. *)
Definition x_init : state_vector_t 2 := [# 3%float; 4%float].
Definition x_init' : state_vector_t 2 := [# (-7)%float; 0.25%float].

(** Calls on one object: a request, a binding, another request. *)
Definition calls : list (Call 2) :=
  [call_getSystemOperatingTrajectories x_init 0%float 2%float true;
   call_initializeModel switch_at_1 3%N None;
   call_getSystemOperatingTrajectories x_init' 2%float 3.5%float true].

(** Requests for the consecutive intervals 0..2, 2..3.5 and 3.5..3.5. *)
Definition first_request : Request 2 := (x_init, (0%float, 2%float)).
Definition more_requests : list (Request 2) :=
  [(x_init', (2%float, 3.5%float)); (x_init, (3.5%float, 3.5%float))].

(** The store after one [clone] of the object at address 1, and after a
    [clone] of the copy. *)
Definition copy_address : positive := fresh (dom store).
Definition store' : gmap positive (SystemOperatingPoint 2 1) :=
  <[copy_address := SystemOperatingPoint_copy bound_point]> store.
Definition copy_address' : positive := fresh (dom store').
Definition store'' : gmap positive (SystemOperatingPoint 2 1) :=
  <[copy_address' :=
      SystemOperatingPoint_copy (SystemOperatingPoint_copy bound_point)]>
    store'.

(** An object with two states and two inputs, and empty containers at
    every address. *)
Definition square_point : SystemOperatingPoint 2 2 :=
  SystemOperatingPoint_ctor x_op x_init.
Definition no_samples : positive → list (vec scalar_t 2) := λ _, [].

End Example.

(** * Properties *)

Section Properties.

Context {STATE_DIM INPUT_DIM : nat}.
Context {B : SystemOperatingTrajectoriesBase}.

#[local] Abbreviation Store :=
  (gmap positive (SystemOperatingPoint STATE_DIM INPUT_DIM)).

(** ** The effect of the member functions *)

(** [initializeModel] replaces the base sub-object and nothing else. *)
Lemma initializeModel_eq lrm i name
    (this : SystemOperatingPoint STATE_DIM INPUT_DIM)
    (out : Trajectories STATE_DIM INPUT_DIM) :
  initializeModel lrm i name (this, out) =
  (tt, ({| base := Base_initializeModel lrm i name (base this);
           stateOperatingPoint_ := stateOperatingPoint_ this;
           inputOperatingPoint_ := inputOperatingPoint_ this |}, out)).
Proof. reflexivity. Qed.

(** [getSystemOperatingTrajectories] returns, leaves [*this] as it was and
    leaves two more samples in each container. *)
Lemma getSystemOperatingTrajectories_eq x s f concat
    (this : SystemOperatingPoint STATE_DIM INPUT_DIM)
    (out : Trajectories STATE_DIM INPUT_DIM) :
  getSystemOperatingTrajectories x s f concat (this, out) =
  (tt, (this, appended this s f concat out)).
Proof.
  destruct out as [tT sT iT], concat;
    cbv -[app]; rewrite <- ?(assoc_L (++)); reflexivity.
Qed.

Lemma exec_getSystemOperatingTrajectories x s f concat
    (this : SystemOperatingPoint STATE_DIM INPUT_DIM)
    (out : Trajectories STATE_DIM INPUT_DIM) :
  exec (getSystemOperatingTrajectories x s f concat) (this, out) =
  (this, appended this s f concat out).
Proof. unfold exec. rewrite getSystemOperatingTrajectories_eq. reflexivity. Qed.

Lemma exec_initializeModel_fields lrm i name
    (this : SystemOperatingPoint STATE_DIM INPUT_DIM)
    (out : Trajectories STATE_DIM INPUT_DIM) :
  let this' := fst (exec (initializeModel lrm i name) (this, out)) in
  stateOperatingPoint_ this' = stateOperatingPoint_ this ∧
  inputOperatingPoint_ this' = inputOperatingPoint_ this.
Proof. split; reflexivity. Qed.

(** The containers after the call depend on [*this] through the two
    operating-point members only. *)
Lemma appended_ext (this1 this2 : SystemOperatingPoint STATE_DIM INPUT_DIM)
    s f concat (out : Trajectories STATE_DIM INPUT_DIM) :
  stateOperatingPoint_ this1 = stateOperatingPoint_ this2 →
  inputOperatingPoint_ this1 = inputOperatingPoint_ this2 →
  appended this1 s f concat out = appended this2 s f concat out.
Proof. unfold appended. intros -> ->. reflexivity. Qed.

(** ** Order facts on doubles and on time stamps *)

(** [a > b] excludes [a <= b], also with NaN and signed zeros around. *)
Lemma scalar_lt_not_le (a b : scalar_t) :
  scalar_lt b a = true → scalar_le a b = false.
Proof.
  unfold scalar_lt, scalar_le. rewrite ltb_spec, leb_spec.
  unfold SFltb, SFleb, SFcompare.
  destruct (Prim2SF a) as [[]|[]| |[] ma ea], (Prim2SF b) as [[]|[]| |[] mb eb];
    try (intros; reflexivity); try discriminate.
  all: rewrite (Z.compare_antisym ea eb); destruct (ea ?= eb)%Z;
    try (intros; reflexivity); try discriminate; cbn [CompOpp].
  all: change (PosDef.Pos.compare_cont Eq) with Pos.compare;
    rewrite (Pos.compare_antisym ma mb);
    destruct (ma ?= mb)%positive; try (intros; reflexivity); discriminate.
Qed.

Lemma nondecreasing_snoc (t : scalar_array_t) (a : scalar_t) :
  nondecreasing (t ++ [a]) = nondecreasing t && last_le t a.
Proof.
  unfold last_le. induction t as [|b t IH]; [reflexivity|].
  destruct t as [|c t].
  - cbn. rewrite andb_true_r. reflexivity.
  - change (nondecreasing ((b :: c :: t) ++ [a])) with
      (scalar_le b c && nondecreasing ((c :: t) ++ [a])).
    rewrite IH. change (last (b :: c :: t)) with (last (c :: t)).
    cbn [nondecreasing]. rewrite andb_assoc. reflexivity.
Qed.

(** The time stamps after two appends. *)
Lemma nondecreasing_two_more (t : scalar_array_t) (s f : scalar_t) :
  nondecreasing (t ++ [s; f]) = nondecreasing t && last_le t s && scalar_le s f.
Proof.
  change [s; f] with ([s] ++ [f]). rewrite (assoc_L (++)).
  rewrite !nondecreasing_snoc. f_equal.
  unfold last_le. rewrite last_snoc. reflexivity.
Qed.

Lemma Forall_le_last (t : scalar_array_t) (a : scalar_t) :
  Forall (λ b, scalar_le b a = true) t → last_le t a = true.
Proof.
  unfold last_le. intros H. destruct (last t) as [b|] eqn:E; [|reflexivity].
  apply last_Some_elem_of in E. rewrite Forall_forall in H. apply H, E.
Qed.

(** ** Properties of [getSystemOperatingTrajectories] *)

(** C1. For [startTime <= finalTime], every object and every prior contents
    of the three containers, the call with [concatOutput = false] returns
    and leaves each container with exactly two samples: the times
    [startTime; finalTime], the state operating point twice and the input
    operating point twice. *)
Theorem getSystemOperatingTrajectories_override
    (initialState : state_vector_t STATE_DIM) (startTime finalTime : scalar_t)
    (this : SystemOperatingPoint STATE_DIM INPUT_DIM)
    (out : Trajectories STATE_DIM INPUT_DIM) :
  scalar_le startTime finalTime = true →
  let out' :=
    snd (exec (getSystemOperatingTrajectories initialState startTime finalTime
                 false) (this, out)) in
  (length (timeTrajectory out') = 2 ∧
   length (stateTrajectory out') = 2 ∧
   length (inputTrajectory out') = 2) ∧
  timeTrajectory out' = [startTime; finalTime] ∧
  stateTrajectory out' =
    [stateOperatingPoint_ this; stateOperatingPoint_ this] ∧
  inputTrajectory out' =
    [inputOperatingPoint_ this; inputOperatingPoint_ this].
Proof.
  intros _. rewrite exec_getSystemOperatingTrajectories. cbn.
  repeat split; reflexivity.
Qed.

(** C2. Two runs on objects with the same operating-point members, the same
    [startTime], [finalTime], [concatOutput] and the same prior containers
    leave the same containers, whatever [initialState] is passed and whatever
    the base sub-objects hold; in particular binding one of the objects with
    [initializeModel] to any [logicRulesMachine] and [partitionIndex] first
    changes nothing. *)
Theorem getSystemOperatingTrajectories_ignores_initialState_and_binding
    (this1 this2 : SystemOperatingPoint STATE_DIM INPUT_DIM)
    (initialState1 initialState2 : state_vector_t STATE_DIM)
    (startTime finalTime : scalar_t) (concatOutput : bool)
    (out : Trajectories STATE_DIM INPUT_DIM) :
  stateOperatingPoint_ this1 = stateOperatingPoint_ this2 →
  inputOperatingPoint_ this1 = inputOperatingPoint_ this2 →
  snd (exec (getSystemOperatingTrajectories initialState1 startTime finalTime
               concatOutput) (this1, out)) =
  snd (exec (getSystemOperatingTrajectories initialState2 startTime finalTime
               concatOutput) (this2, out)) ∧
  ∀ (logicRulesMachine : LogicRulesMachine) (partitionIndex : N)
    (algorithmName : option string),
    snd (exec (getSystemOperatingTrajectories initialState1 startTime finalTime
                 concatOutput) (this1, out)) =
    snd (exec (initializeModel logicRulesMachine partitionIndex algorithmName ;;
               getSystemOperatingTrajectories initialState2 startTime finalTime
                 concatOutput) (this2, out)).
Proof.
  intros Hx Hu. split.
  - rewrite !exec_getSystemOperatingTrajectories. cbn.
    apply appended_ext; assumption.
  - intros lrm i name. rewrite exec_getSystemOperatingTrajectories.
    unfold exec, mbind, M_bind. rewrite initializeModel_eq.
    rewrite getSystemOperatingTrajectories_eq. cbn.
    apply appended_ext; assumption.
Qed.

(** C3. With [concatOutput = true] each container is the prior container
    followed by exactly two new samples, so every sample that was present
    keeps its position and value; with [concatOutput = false] the prior
    contents are gone and only the two new samples are left. *)
Theorem getSystemOperatingTrajectories_concat_frame
    (initialState : state_vector_t STATE_DIM) (startTime finalTime : scalar_t)
    (this : SystemOperatingPoint STATE_DIM INPUT_DIM)
    (out : Trajectories STATE_DIM INPUT_DIM) :
  let run concatOutput :=
    snd (exec (getSystemOperatingTrajectories initialState startTime finalTime
                 concatOutput) (this, out)) in
  (length (timeTrajectory (run true)) = length (timeTrajectory out) + 2 ∧
   length (stateTrajectory (run true)) = length (stateTrajectory out) + 2 ∧
   length (inputTrajectory (run true)) = length (inputTrajectory out) + 2) ∧
  (∀ i t, timeTrajectory out !! i = Some t →
          timeTrajectory (run true) !! i = Some t) ∧
  (∀ i x, stateTrajectory out !! i = Some x →
          stateTrajectory (run true) !! i = Some x) ∧
  (∀ i u, inputTrajectory out !! i = Some u →
          inputTrajectory (run true) !! i = Some u) ∧
  (drop (length (timeTrajectory out)) (timeTrajectory (run true)) =
     [startTime; finalTime] ∧
   drop (length (stateTrajectory out)) (stateTrajectory (run true)) =
     [stateOperatingPoint_ this; stateOperatingPoint_ this] ∧
   drop (length (inputTrajectory out)) (inputTrajectory (run true)) =
     [inputOperatingPoint_ this; inputOperatingPoint_ this]) ∧
  (timeTrajectory (run false) = [startTime; finalTime] ∧
   stateTrajectory (run false) =
     [stateOperatingPoint_ this; stateOperatingPoint_ this] ∧
   inputTrajectory (run false) =
     [inputOperatingPoint_ this; inputOperatingPoint_ this]).
Proof.
  intros run. subst run. cbv beta.
  rewrite !exec_getSystemOperatingTrajectories. cbn.
  rewrite !length_app, !drop_app_length. cbn.
  repeat split; try reflexivity; intros i v Hi; apply lookup_app_l_Some, Hi.
Qed.

(** C4. Two calls in succession with the same arguments and
    [concatOutput = false]: the containers (and the object) after the second
    call are those after the first. *)
Theorem getSystemOperatingTrajectories_idempotent
    (initialState : state_vector_t STATE_DIM) (startTime finalTime : scalar_t)
    (this : SystemOperatingPoint STATE_DIM INPUT_DIM)
    (out : Trajectories STATE_DIM INPUT_DIM) :
  let call := getSystemOperatingTrajectories initialState startTime finalTime
                false in
  exec (call ;; call) (this, out) = exec call (this, out) ∧
  exec call (exec call (this, out)) = exec call (this, out).
Proof.
  intros call. subst call. unfold exec, mbind, M_bind.
  rewrite !getSystemOperatingTrajectories_eq. cbn.
  rewrite !getSystemOperatingTrajectories_eq. cbn.
  split; reflexivity.
Qed.

(** ** The operating point is fixed at construction *)

Lemma run_call_fields (c : Call STATE_DIM)
    (this : SystemOperatingPoint STATE_DIM INPUT_DIM)
    (out : Trajectories STATE_DIM INPUT_DIM) :
  stateOperatingPoint_ (fst (exec (run_call c) (this, out))) =
    stateOperatingPoint_ this ∧
  inputOperatingPoint_ (fst (exec (run_call c) (this, out))) =
    inputOperatingPoint_ this.
Proof.
  destruct c as [lrm i name|x s f concat]; cbn [run_call].
  - apply exec_initializeModel_fields.
  - rewrite exec_getSystemOperatingTrajectories. split; reflexivity.
Qed.

Lemma run_calls_fields (cs : list (Call STATE_DIM))
    (this : SystemOperatingPoint STATE_DIM INPUT_DIM)
    (out : Trajectories STATE_DIM INPUT_DIM) :
  stateOperatingPoint_ (fst (exec (run_calls cs) (this, out))) =
    stateOperatingPoint_ this ∧
  inputOperatingPoint_ (fst (exec (run_calls cs) (this, out))) =
    inputOperatingPoint_ this.
Proof.
  revert this out. induction cs as [|c cs IH]; intros this out.
  - split; reflexivity.
  - pose proof (run_call_fields c this out) as [Hx Hu].
    cbn [run_calls]. unfold exec, mbind, M_bind in *.
    destruct (run_call c (this, out)) as [[] [this1 out1]]. cbn in Hx, Hu.
    destruct (IH this1 out1) as [IHx IHu].
    rewrite IHx, IHu, Hx, Hu. split; reflexivity.
Qed.

(** C9. No operation changes the operating point: [initializeModel] keeps
    both members, [getSystemOperatingTrajectories] leaves the whole object
    as it was, and after any sequence of calls on a constructed object the
    members still hold the values given to the constructor. *)
Theorem operating_point_fixed_at_construction
    (stateOperatingPoint : state_vector_t STATE_DIM)
    (inputOperatingPoint : input_vector_t INPUT_DIM)
    (this : SystemOperatingPoint STATE_DIM INPUT_DIM)
    (out : Trajectories STATE_DIM INPUT_DIM) :
  (∀ logicRulesMachine partitionIndex algorithmName,
     let this' :=
       fst (exec (initializeModel logicRulesMachine partitionIndex algorithmName)
              (this, out)) in
     stateOperatingPoint_ this' = stateOperatingPoint_ this ∧
     inputOperatingPoint_ this' = inputOperatingPoint_ this) ∧
  (∀ initialState startTime finalTime concatOutput,
     fst (exec (getSystemOperatingTrajectories initialState startTime finalTime
                  concatOutput) (this, out)) = this) ∧
  (∀ cs : list (Call STATE_DIM),
     let this' :=
       fst (exec (run_calls cs)
              (SystemOperatingPoint_ctor stateOperatingPoint inputOperatingPoint,
               out)) in
     stateOperatingPoint_ this' = stateOperatingPoint ∧
     inputOperatingPoint_ this' = inputOperatingPoint).
Proof.
  split; [|split].
  - intros lrm i name. apply exec_initializeModel_fields.
  - intros x s f concat. rewrite exec_getSystemOperatingTrajectories.
    reflexivity.
  - intros cs. apply (run_calls_fields cs).
Qed.

(** C6. The default-constructed object is the object constructed from the
    all-zero state vector and the all-zero input vector: every sequence of
    calls, and so every call of [getSystemOperatingTrajectories], has the
    same outcome on both. *)
Theorem default_constructed_as_zero_constructed
    (zeroState : state_vector_t STATE_DIM)
    (zeroInput : input_vector_t INPUT_DIM) :
  (∀ i, zeroState !!! i = 0%float) →
  (∀ j, zeroInput !!! j = 0%float) →
  (∀ initialState startTime finalTime concatOutput out,
     exec (getSystemOperatingTrajectories initialState startTime finalTime
             concatOutput) (SystemOperatingPoint_default, out) =
     exec (getSystemOperatingTrajectories initialState startTime finalTime
             concatOutput) (SystemOperatingPoint_ctor zeroState zeroInput, out)) ∧
  (∀ (cs : list (Call STATE_DIM)) out,
     exec (run_calls cs) (SystemOperatingPoint_default, out) =
     exec (run_calls cs) (SystemOperatingPoint_ctor zeroState zeroInput, out)).
Proof.
  intros Hx Hu.
  assert (SystemOperatingPoint_default =
          SystemOperatingPoint_ctor zeroState zeroInput) as ->.
  { unfold SystemOperatingPoint_default. f_equal; apply vec_eq; intros k.
    - unfold state_vector_Zero. rewrite vlookup_replicate, Hx. reflexivity.
    - unfold input_vector_Zero. rewrite vlookup_replicate, Hu. reflexivity. }
  split; reflexivity.
Qed.

(** ** The trajectory invariant *)

(** C7, amended. Every call preserves the trajectory invariant. Containers
    of equal lengths before the call have equal lengths after it. For
    [startTime <= finalTime]: with [concatOutput = false] the time stamps
    after the call are non-decreasing; with [concatOutput = true], prior time
    stamps that are non-decreasing and every prior time stamp
    [<= startTime], the time stamps after the call are non-decreasing. So,
    under these conditions, containers that satisfy the invariant before the
    call satisfy it after the call. *)
Theorem getSystemOperatingTrajectories_preserves_invariant
    (initialState : state_vector_t STATE_DIM) (startTime finalTime : scalar_t)
    (concatOutput : bool) (this : SystemOperatingPoint STATE_DIM INPUT_DIM)
    (out : Trajectories STATE_DIM INPUT_DIM) :
  let out' :=
    snd (exec (getSystemOperatingTrajectories initialState startTime finalTime
                 concatOutput) (this, out)) in
  (aligned out → aligned out') ∧
  (scalar_le startTime finalTime = true → concatOutput = false →
   nondecreasing (timeTrajectory out') = true) ∧
  (scalar_le startTime finalTime = true → concatOutput = true →
   nondecreasing (timeTrajectory out) = true →
   Forall (λ t, scalar_le t startTime = true) (timeTrajectory out) →
   nondecreasing (timeTrajectory out') = true) ∧
  (scalar_le startTime finalTime = true →
   (concatOutput = true →
    Forall (λ t, scalar_le t startTime = true) (timeTrajectory out)) →
   trajectory_invariant out → trajectory_invariant out').
Proof.
  intros out'. subst out'. rewrite exec_getSystemOperatingTrajectories.
  cbn [snd].
  assert (Hlen : aligned out → aligned (appended this startTime finalTime
                                          concatOutput out)).
  { unfold aligned, appended. cbn. rewrite !length_app. cbn.
    destruct concatOutput; cbn; lia. }
  assert (Hclear : scalar_le startTime finalTime = true →
            nondecreasing (timeTrajectory
              (appended this startTime finalTime false out)) = true).
  { intros Hle. unfold appended, kept. cbn [timeTrajectory].
    rewrite nondecreasing_two_more, Hle. reflexivity. }
  assert (Hconcat : scalar_le startTime finalTime = true →
            nondecreasing (timeTrajectory out) = true →
            Forall (λ t, scalar_le t startTime = true) (timeTrajectory out) →
            nondecreasing (timeTrajectory
              (appended this startTime finalTime true out)) = true).
  { intros Hle Hnd Hall. unfold appended, kept. cbn [timeTrajectory].
    rewrite nondecreasing_two_more.
    rewrite Hnd, (Forall_le_last _ _ Hall), Hle. reflexivity. }
  split; [exact Hlen|]. split; [|split].
  - intros Hle ->. apply Hclear, Hle.
  - intros Hle ->. apply Hconcat, Hle.
  - intros Hle Hprior [Hal Hnd]. split; [apply Hlen, Hal|].
    destruct concatOutput.
    + apply Hconcat; auto.
    + apply Hclear, Hle.
Qed.

(** ** Calls outside the contract *)

(** C8. On an object that was constructed and never bound, the call returns
    with the object untouched and the two samples appended; it leaves the
    same containers as on the object bound with [initializeModel] first, and
    as on an object with any base sub-object at all: the base sub-object,
    where a binding to the mode-switch lookup would be held, is not read. *)
Theorem getSystemOperatingTrajectories_unbound
    (stateOperatingPoint : state_vector_t STATE_DIM)
    (inputOperatingPoint : input_vector_t INPUT_DIM)
    (initialState : state_vector_t STATE_DIM) (startTime finalTime : scalar_t)
    (concatOutput : bool) (out : Trajectories STATE_DIM INPUT_DIM) :
  let unbound :=
    SystemOperatingPoint_ctor stateOperatingPoint inputOperatingPoint in
  let call :=
    getSystemOperatingTrajectories initialState startTime finalTime
      concatOutput in
  let out' :=
    {| timeTrajectory :=
         (if concatOutput then timeTrajectory out else []) ++
         [startTime; finalTime];
       stateTrajectory :=
         (if concatOutput then stateTrajectory out else []) ++
         [stateOperatingPoint; stateOperatingPoint];
       inputTrajectory :=
         (if concatOutput then inputTrajectory out else []) ++
         [inputOperatingPoint; inputOperatingPoint] |} in
  call (unbound, out) = (tt, (unbound, out')) ∧
  (∀ logicRulesMachine partitionIndex algorithmName,
     snd (exec (initializeModel logicRulesMachine partitionIndex algorithmName ;;
                call) (unbound, out)) = out') ∧
  (∀ b : Base,
     snd (exec call
            ({| base := b;
                stateOperatingPoint_ := stateOperatingPoint;
                inputOperatingPoint_ := inputOperatingPoint |}, out)) = out').
Proof.
  intros unbound call out'. subst unbound call out'. split; [|split].
  - rewrite getSystemOperatingTrajectories_eq. reflexivity.
  - intros lrm i name. unfold exec, mbind, M_bind.
    rewrite initializeModel_eq, getSystemOperatingTrajectories_eq.
    reflexivity.
  - intros b. rewrite exec_getSystemOperatingTrajectories. reflexivity.
Qed.

(** C10. For [startTime > finalTime] the call returns all the same, with
    [startTime] and then [finalTime] appended in that order: the bounds are
    not swapped and nothing is dropped, the two new time stamps are
    decreasing, so the time stamps after the call are not non-decreasing,
    and with [concatOutput = false] they are the decreasing sequence
    [startTime; finalTime]. *)
Theorem getSystemOperatingTrajectories_reversed_interval
    (initialState : state_vector_t STATE_DIM) (startTime finalTime : scalar_t)
    (concatOutput : bool) (this : SystemOperatingPoint STATE_DIM INPUT_DIM)
    (out : Trajectories STATE_DIM INPUT_DIM) :
  scalar_lt finalTime startTime = true →
  let out' :=
    {| timeTrajectory :=
         (if concatOutput then timeTrajectory out else []) ++
         [startTime; finalTime];
       stateTrajectory :=
         (if concatOutput then stateTrajectory out else []) ++
         [stateOperatingPoint_ this; stateOperatingPoint_ this];
       inputTrajectory :=
         (if concatOutput then inputTrajectory out else []) ++
         [inputOperatingPoint_ this; inputOperatingPoint_ this] |} in
  getSystemOperatingTrajectories initialState startTime finalTime
    concatOutput (this, out) = (tt, (this, out')) ∧
  timeTrajectory out' ≠ [] ∧
  decreasing [startTime; finalTime] = true ∧
  nondecreasing (timeTrajectory out') = false ∧
  (concatOutput = false → decreasing (timeTrajectory out') = true).
Proof.
  intros Hgt out'. subst out'. cbn [timeTrajectory].
  split; [apply getSystemOperatingTrajectories_eq|].
  split; [|split; [|split]].
  - intros E. apply app_eq_nil in E as [_ E]. discriminate E.
  - cbn [decreasing]. rewrite Hgt. reflexivity.
  - rewrite nondecreasing_two_more, (scalar_lt_not_le _ _ Hgt).
    apply andb_false_r.
  - intros ->. cbn [app decreasing]. rewrite Hgt. reflexivity.
Qed.

(** ** [clone] *)

(** A call of [getSystemOperatingTrajectories] through a pointer to an
    object. *)
Lemma call_on_getSystemOperatingTrajectories (p : positive) (σ : Store)
    (o : SystemOperatingPoint STATE_DIM INPUT_DIM) x s f concat out :
  σ !! p = Some o →
  output_of (call_on p (getSystemOperatingTrajectories x s f concat) out σ) =
  Some (appended o s f concat out).
Proof.
  intros Hp. unfold output_of, call_on. rewrite Hp. cbn.
  rewrite getSystemOperatingTrajectories_eq. reflexivity.
Qed.

(** A call of [initializeModel] through a pointer writes that object only. *)
Lemma call_on_initializeModel (p : positive) (σ : Store)
    (o : SystemOperatingPoint STATE_DIM INPUT_DIM) lrm i name out :
  σ !! p = Some o →
  ∃ o', call_on p (initializeModel lrm i name) out σ =
          Some (tt, out, <[p := o']> σ) ∧
        stateOperatingPoint_ o' = stateOperatingPoint_ o ∧
        inputOperatingPoint_ o' = inputOperatingPoint_ o.
Proof.
  intros Hp. unfold call_on. rewrite Hp. cbn. eexists.
  split; [reflexivity|]. split; reflexivity.
Qed.

Lemma clone_eq (this : positive) (σ : Store)
    (o : SystemOperatingPoint STATE_DIM INPUT_DIM) :
  σ !! this = Some o →
  clone this σ =
    Some (fresh (dom σ), <[fresh (dom σ) := SystemOperatingPoint_copy o]> σ) ∧
  fresh (dom σ) ≠ this ∧ σ !! fresh (dom σ) = None.
Proof.
  intros Hthis. unfold clone. rewrite Hthis. cbn.
  pose proof (is_fresh (dom σ)) as Hfresh.
  split; [reflexivity|]. split.
  - intros E. apply Hfresh. rewrite E. apply elem_of_dom. eauto.
  - apply not_elem_of_dom, Hfresh.
Qed.

(** C5. [clone] returns a pointer to a new object, at an address that was not
    in use, whose operating-point members equal the source's; the source is
    left alone. The two are stored independently: whatever is written to one
    of them afterwards, by an arbitrary mutation or by a call of
    [initializeModel] with any arguments, [getSystemOperatingTrajectories] on
    the other still leaves the containers it left before, for all
    arguments. *)
Theorem clone_independent (this : positive) (σ : Store)
    (o : SystemOperatingPoint STATE_DIM INPUT_DIM) :
  σ !! this = Some o →
  ∃ (p : positive) (σ' : Store) (o' : SystemOperatingPoint STATE_DIM INPUT_DIM),
    clone this σ = Some (p, σ') ∧
    p ≠ this ∧ σ !! p = None ∧
    σ' !! this = Some o ∧ σ' !! p = Some o' ∧
    stateOperatingPoint_ o' = stateOperatingPoint_ o ∧
    inputOperatingPoint_ o' = inputOperatingPoint_ o ∧
    ∀ initialState startTime finalTime concatOutput out,
      let call :=
        getSystemOperatingTrajectories initialState startTime finalTime
          concatOutput in
      let out' :=
        {| timeTrajectory :=
             (if concatOutput then timeTrajectory out else []) ++
             [startTime; finalTime];
           stateTrajectory :=
             (if concatOutput then stateTrajectory out else []) ++
             [stateOperatingPoint_ o; stateOperatingPoint_ o];
           inputTrajectory :=
             (if concatOutput then inputTrajectory out else []) ++
             [inputOperatingPoint_ o; inputOperatingPoint_ o] |} in
      output_of (call_on this call out σ') = Some out' ∧
      output_of (call_on p call out σ') = Some out' ∧
      (∀ changed : SystemOperatingPoint STATE_DIM INPUT_DIM,
         output_of (call_on this call out (<[p := changed]> σ')) = Some out' ∧
         output_of (call_on p call out (<[this := changed]> σ')) = Some out') ∧
      (∀ logicRulesMachine partitionIndex algorithmName out0,
         (r ← call_on p
                (initializeModel logicRulesMachine partitionIndex algorithmName)
                out0 σ' ;
          output_of (call_on this call out (snd r))) = Some out' ∧
         (r ← call_on this
                (initializeModel logicRulesMachine partitionIndex algorithmName)
                out0 σ' ;
          output_of (call_on p call out (snd r))) = Some out').
Proof.
  intros Hthis. destruct (clone_eq this σ o Hthis) as (Hclone & Hne & Hnew).
  set (p := fresh (dom σ)) in *.
  exists p, (<[p := SystemOperatingPoint_copy o]> σ), (SystemOperatingPoint_copy o).
  assert ((<[p := SystemOperatingPoint_copy o]> σ) !! this = Some o) as Ho.
  { rewrite lookup_insert_ne by exact Hne. exact Hthis. }
  assert ((<[p := SystemOperatingPoint_copy o]> σ) !! p
          = Some (SystemOperatingPoint_copy o)) as Hp.
  { apply lookup_insert_eq. }
  repeat (split; [first [assumption | reflexivity]|]).
  intros x s f concat out call out'. subst call.
  assert (Hsrc : out' = appended o s f concat out) by reflexivity.
  assert (Hnew' : out' = appended (SystemOperatingPoint_copy o) s f concat out)
    by reflexivity.
  assert (Hne' : this ≠ p) by (intros E; apply Hne; symmetry; exact E).
  split; [|split; [|split]].
  - rewrite Hsrc. apply call_on_getSystemOperatingTrajectories, Ho.
  - rewrite Hnew'. apply call_on_getSystemOperatingTrajectories, Hp.
  - intros changed. split.
    + rewrite Hsrc. apply call_on_getSystemOperatingTrajectories.
      rewrite lookup_insert_ne by exact Hne. exact Ho.
    + rewrite Hnew'. apply call_on_getSystemOperatingTrajectories.
      rewrite lookup_insert_ne by exact Hne'. exact Hp.
  - intros lrm i name out0. split.
    + destruct (call_on_initializeModel p _ _ lrm i name out0 Hp)
        as (o1 & -> & _ & _). cbn [mbind option_bind snd].
      rewrite Hsrc. apply call_on_getSystemOperatingTrajectories.
      rewrite lookup_insert_ne by exact Hne. exact Ho.
    + destruct (call_on_initializeModel this _ _ lrm i name out0 Ho)
        as (o1 & -> & _ & _). cbn [mbind option_bind snd].
      rewrite Hnew'. apply call_on_getSystemOperatingTrajectories.
      rewrite lookup_insert_ne by exact Hne'. exact Hp.
Qed.

End Properties.

(** * Sequences of calls *)

Section CallSequences.

Context {STATE_DIM INPUT_DIM : nat}.
Context {B : SystemOperatingTrajectoriesBase}.

Lemma run_calls_app (cs1 cs2 : list (Call STATE_DIM))
    (fr : Frame STATE_DIM INPUT_DIM) :
  exec (run_calls (cs1 ++ cs2)) fr = exec (run_calls cs2) (exec (run_calls cs1) fr).
Proof.
  revert fr. induction cs1 as [|c cs1 IH]; intros fr; [reflexivity|].
  cbn [app run_calls]. unfold exec, mbind, M_bind in *.
  destruct (run_call c fr) as [[] fr1]. apply IH.
Qed.

Lemma run_calls_cons (c : Call STATE_DIM) (cs : list (Call STATE_DIM))
    (fr : Frame STATE_DIM INPUT_DIM) :
  exec (run_calls (c :: cs)) fr = exec (run_calls cs) (exec (run_call c) fr).
Proof.
  cbn [run_calls]. unfold exec, mbind, M_bind.
  destruct (run_call c fr) as [[] fr1]. reflexivity.
Qed.

(** One call, on the containers. *)
Lemma run_call_output (c : Call STATE_DIM)
    (this : SystemOperatingPoint STATE_DIM INPUT_DIM)
    (out : Trajectories STATE_DIM INPUT_DIM) :
  snd (exec (run_call c) (this, out)) =
  match c with
  | call_getSystemOperatingTrajectories _ s f concat =>
      appended this s f concat out
  | call_initializeModel _ _ _ => out
  end.
Proof.
  destruct c as [lrm i name|x s f concat]; cbn [run_call].
  - reflexivity.
  - rewrite exec_getSystemOperatingTrajectories. reflexivity.
Qed.

(** A property of the containers that every call of
    [getSystemOperatingTrajectories] keeps is kept by every sequence of
    calls. *)
Lemma run_calls_invariant (P : Trajectories STATE_DIM INPUT_DIM → Prop)
    (x : state_vector_t STATE_DIM) (u : input_vector_t INPUT_DIM) :
  (∀ (this : SystemOperatingPoint STATE_DIM INPUT_DIM) out s f concat,
     stateOperatingPoint_ this = x → inputOperatingPoint_ this = u →
     P out → P (appended this s f concat out)) →
  ∀ (cs : list (Call STATE_DIM)) this out,
    stateOperatingPoint_ this = x → inputOperatingPoint_ this = u →
    P out → P (snd (exec (run_calls cs) (this, out))).
Proof.
  intros Hstep cs. induction cs as [|c cs IH]; intros this out Hx Hu HP.
  - exact HP.
  - rewrite run_calls_cons.
    pose proof (run_call_fields c this out) as [Hx1 Hu1].
    pose proof (run_call_output c this out) as Hout.
    destruct (exec (run_call c) (this, out)) as [this1 out1].
    cbn [fst snd] in *. apply IH; [congruence|congruence|].
    rewrite Hout. destruct c; [exact HP|]. apply Hstep; assumption.
Qed.

(** The containers after a sequence of calls depend on the object through
    its two operating-point members only. *)
Lemma run_calls_ext (cs : list (Call STATE_DIM))
    (this1 this2 : SystemOperatingPoint STATE_DIM INPUT_DIM)
    (out : Trajectories STATE_DIM INPUT_DIM) :
  stateOperatingPoint_ this1 = stateOperatingPoint_ this2 →
  inputOperatingPoint_ this1 = inputOperatingPoint_ this2 →
  snd (exec (run_calls cs) (this1, out)) =
  snd (exec (run_calls cs) (this2, out)).
Proof.
  revert this1 this2 out.
  induction cs as [|c cs IH]; intros this1 this2 out Hx Hu; [reflexivity|].
  rewrite !run_calls_cons.
  pose proof (run_call_fields c this1 out) as [Hx1 Hu1].
  pose proof (run_call_fields c this2 out) as [Hx2 Hu2].
  pose proof (run_call_output c this1 out) as Ho1.
  pose proof (run_call_output c this2 out) as Ho2.
  destruct (exec (run_call c) (this1, out)) as [this1' out1].
  destruct (exec (run_call c) (this2, out)) as [this2' out2].
  cbn [fst snd] in *.
  assert (out1 = out2) as ->.
  { rewrite Ho1, Ho2. destruct c; [reflexivity|].
    apply appended_ext; assumption. }
  apply IH; congruence.
Qed.

Lemma appended_aligned (this : SystemOperatingPoint STATE_DIM INPUT_DIM)
    s f concat (out : Trajectories STATE_DIM INPUT_DIM) :
  aligned out → aligned (appended this s f concat out).
Proof.
  unfold aligned, appended. cbn. rewrite !length_app. cbn.
  destruct concat; cbn; lia.
Qed.

(** ** What a sequence of calls leaves in the containers *)

(** X1. After a call the time stamps are non-decreasing exactly when
    [startTime <= finalTime] and, with [concatOutput = true], the prior time
    stamps were non-decreasing and the last of them is [<= startTime]. *)
Theorem time_stamps_nondecreasing_iff
    (initialState : state_vector_t STATE_DIM) (startTime finalTime : scalar_t)
    (concatOutput : bool) (this : SystemOperatingPoint STATE_DIM INPUT_DIM)
    (out : Trajectories STATE_DIM INPUT_DIM) :
  nondecreasing
    (timeTrajectory
       (snd (exec (getSystemOperatingTrajectories initialState startTime
                     finalTime concatOutput) (this, out)))) =
  (if concatOutput
   then nondecreasing (timeTrajectory out) &&
        match last (timeTrajectory out) with
        | Some t => scalar_le t startTime
        | None => true
        end
   else true) && scalar_le startTime finalTime.
Proof.
  rewrite exec_getSystemOperatingTrajectories. cbn [snd].
  unfold appended, kept. cbn [timeTrajectory].
  rewrite nondecreasing_two_more. destruct concatOutput; reflexivity.
Qed.

(** X2. A call with [concatOutput = false] forgets the history: after any
    sequence of calls on the object, from any containers, it leaves exactly
    the two samples of the current request. *)
Theorem override_forgets_history (cs : list (Call STATE_DIM))
    (initialState : state_vector_t STATE_DIM) (startTime finalTime : scalar_t)
    (this : SystemOperatingPoint STATE_DIM INPUT_DIM)
    (out : Trajectories STATE_DIM INPUT_DIM) :
  snd (exec (run_calls cs ;;
             getSystemOperatingTrajectories initialState startTime finalTime
               false) (this, out)) =
  {| timeTrajectory := [startTime; finalTime];
     stateTrajectory := [stateOperatingPoint_ this; stateOperatingPoint_ this];
     inputTrajectory := [inputOperatingPoint_ this; inputOperatingPoint_ this]
  |}.
Proof.
  pose proof (run_calls_fields cs this out) as [Hx Hu].
  unfold exec, mbind, M_bind in *.
  destruct (run_calls cs (this, out)) as [[] [this1 out1]].
  cbn [fst snd] in Hx, Hu.
  rewrite getSystemOperatingTrajectories_eq. cbn [snd].
  unfold appended, kept. rewrite Hx, Hu. reflexivity.
Qed.

(** X3. Calls of [initializeModel] anywhere in a sequence of calls make no
    difference to the containers: the sequence leaves what its calls of
    [getSystemOperatingTrajectories] alone leave. *)
Theorem run_calls_ignores_initializeModel (cs : list (Call STATE_DIM))
    (this : SystemOperatingPoint STATE_DIM INPUT_DIM)
    (out : Trajectories STATE_DIM INPUT_DIM) :
  snd (exec (run_calls cs) (this, out)) =
  snd (exec (run_calls (List.filter is_getSystemOperatingTrajectories cs))
         (this, out)).
Proof.
  revert this out. induction cs as [|c cs IH]; intros this out; [reflexivity|].
  rewrite run_calls_cons.
  pose proof (run_call_fields c this out) as [Hx Hu].
  pose proof (run_call_output c this out) as Hout.
  destruct c as [lrm i name|x s f concat]; cbn [List.filter
    is_getSystemOperatingTrajectories].
  - destruct (exec (run_call _) (this, out)) as [this1 out1].
    cbn [fst snd] in *. subst out1. rewrite IH.
    apply run_calls_ext; assumption.
  - rewrite run_calls_cons.
    destruct (exec (run_call _) (this, out)) as [this1 out1]. apply IH.
Qed.

(** X4. Aligned containers stay aligned through every sequence of calls. *)
Theorem run_calls_aligned (cs : list (Call STATE_DIM))
    (this : SystemOperatingPoint STATE_DIM INPUT_DIM)
    (out : Trajectories STATE_DIM INPUT_DIM) :
  aligned out → aligned (snd (exec (run_calls cs) (this, out))).
Proof.
  apply (run_calls_invariant aligned
           (stateOperatingPoint_ this) (inputOperatingPoint_ this));
    [|reflexivity|reflexivity].
  intros this' out' s f concat _ _. apply appended_aligned.
Qed.

(** X5. The object only ever emits its operating point: if every state
    sample and every input sample in the containers is the operating point of
    the object (as in empty containers), this is so after every sequence of
    calls. *)
Theorem run_calls_constant_samples (cs : list (Call STATE_DIM))
    (this : SystemOperatingPoint STATE_DIM INPUT_DIM)
    (out : Trajectories STATE_DIM INPUT_DIM) :
  Forall (λ x, x = stateOperatingPoint_ this) (stateTrajectory out) →
  Forall (λ u, u = inputOperatingPoint_ this) (inputTrajectory out) →
  let out' := snd (exec (run_calls cs) (this, out)) in
  Forall (λ x, x = stateOperatingPoint_ this) (stateTrajectory out') ∧
  Forall (λ u, u = inputOperatingPoint_ this) (inputTrajectory out').
Proof.
  intros Hx Hu.
  apply (run_calls_invariant
           (λ o, Forall (λ x, x = stateOperatingPoint_ this)
                   (stateTrajectory o) ∧
                 Forall (λ u, u = inputOperatingPoint_ this)
                   (inputTrajectory o))
           (stateOperatingPoint_ this) (inputOperatingPoint_ this));
    [|reflexivity|reflexivity|split; assumption].
  intros this' out' s f concat Ex Eu [Hx' Hu'].
  unfold appended, kept. cbn [stateTrajectory inputTrajectory].
  rewrite Ex, Eu. split; apply Forall_app; split;
    try (destruct concat; [assumption|constructor]);
    repeat constructor.
Qed.

(** ** Building a trajectory over consecutive intervals *)

Lemma length_stamps (intervals : list (scalar_t * scalar_t)) :
  length (stamps intervals) = 2 * length intervals.
Proof.
  unfold stamps. induction intervals as [|i rest IH]; [reflexivity|].
  cbn [flat_map app length]. rewrite IH. lia.
Qed.

Lemma replicate_two_more {A : Type} (n : nat) (a : A) :
  replicate (2 * S n) a = a :: a :: replicate (2 * n) a.
Proof. replace (2 * S n) with (S (S (2 * n))) by lia. reflexivity. Qed.

(** Chained intervals that start no earlier than the stamps so far end
    extend non-decreasing stamps to non-decreasing stamps. *)
Lemma nondecreasing_stamps (intervals : list (scalar_t * scalar_t)) :
  ∀ t : scalar_array_t,
    nondecreasing t = true →
    match intervals with
    | [] => true
    | i :: _ => last_le t (fst i)
    end = true →
    chained intervals = true →
    nondecreasing (t ++ stamps intervals) = true.
Proof.
  induction intervals as [|[s f] rest IH]; intros t Ht Hlast Hch.
  - cbn. rewrite app_nil_r. exact Ht.
  - cbn [chained fst snd] in Hch, Hlast.
    apply andb_prop in Hch as [Hch Hrest]. apply andb_prop in Hch as [Hsf Hnext].
    change (stamps ((s, f) :: rest)) with ([s; f] ++ stamps rest).
    rewrite (assoc_L (++)). apply IH.
    + rewrite nondecreasing_two_more, Ht, Hlast, Hsf. reflexivity.
    + destruct rest as [|j rest']; [reflexivity|].
      unfold last_le. change [s; f] with ([s] ++ [f]).
      rewrite (assoc_L (++)), last_snoc. exact Hnext.
    + exact Hrest.
Qed.

(** The calls for further intervals, all with [concatOutput = true]. *)
Lemma run_calls_concat (rest : list (Request STATE_DIM))
    (this : SystemOperatingPoint STATE_DIM INPUT_DIM) :
  ∀ out : Trajectories STATE_DIM INPUT_DIM,
    snd (exec (run_calls
                 (map (λ r, call_getSystemOperatingTrajectories
                              (fst r) (fst (interval r)) (snd (interval r)) true)
                    rest)) (this, out)) =
    {| timeTrajectory := timeTrajectory out ++ stamps (map interval rest);
       stateTrajectory :=
         stateTrajectory out ++
         replicate (2 * length rest) (stateOperatingPoint_ this);
       inputTrajectory :=
         inputTrajectory out ++
         replicate (2 * length rest) (inputOperatingPoint_ this) |}.
Proof.
  induction rest as [|[x [s f]] rest IH]; intros out.
  - cbn. rewrite !app_nil_r. destruct out; reflexivity.
  - cbn [map]. rewrite run_calls_cons. cbn [run_call interval fst snd].
    rewrite exec_getSystemOperatingTrajectories, IH.
    unfold appended, kept.
    cbn [timeTrajectory stateTrajectory inputTrajectory length].
    rewrite !replicate_two_more, <- !(assoc_L (++)). reflexivity.
Qed.

(** X6. A trajectory built over consecutive intervals: one call for the
    first interval, then one call with [concatOutput = true] for each
    following interval, leave the time stamps of all intervals in call order
    after what was kept, and two copies of the operating point per interval;
    this holds for all intervals and all prior containers. When the
    intervals are chained (each has [start <= final] and ends no later than
    the next starts), and either the first call overrides or the prior
    containers satisfy the trajectory invariant and end no later than the
    first interval starts, the result satisfies the trajectory invariant. *)
Theorem segment_calls_build (concatOutput : bool)
    (first : Request STATE_DIM) (rest : list (Request STATE_DIM))
    (this : SystemOperatingPoint STATE_DIM INPUT_DIM)
    (out : Trajectories STATE_DIM INPUT_DIM) :
  let out' :=
    snd (exec (run_calls (segment_calls concatOutput first rest))
           (this, out)) in
  out' =
    {| timeTrajectory :=
         (if concatOutput then timeTrajectory out else []) ++
         stamps (interval first :: map interval rest);
       stateTrajectory :=
         (if concatOutput then stateTrajectory out else []) ++
         replicate (2 * S (length rest)) (stateOperatingPoint_ this);
       inputTrajectory :=
         (if concatOutput then inputTrajectory out else []) ++
         replicate (2 * S (length rest)) (inputOperatingPoint_ this) |} ∧
  (chained (interval first :: map interval rest) = true →
   (concatOutput = true →
    trajectory_invariant out ∧
    last_le (timeTrajectory out) (fst (interval first)) = true) →
   trajectory_invariant out').
Proof.
  intros out'.
  assert (Hout : out' =
    {| timeTrajectory :=
         (if concatOutput then timeTrajectory out else []) ++
         stamps (interval first :: map interval rest);
       stateTrajectory :=
         (if concatOutput then stateTrajectory out else []) ++
         replicate (2 * S (length rest)) (stateOperatingPoint_ this);
       inputTrajectory :=
         (if concatOutput then inputTrajectory out else []) ++
         replicate (2 * S (length rest)) (inputOperatingPoint_ this) |}).
  { subst out'. unfold segment_calls. rewrite run_calls_cons.
    cbn [run_call]. rewrite exec_getSystemOperatingTrajectories.
    rewrite run_calls_concat. unfold appended, kept.
    cbn [timeTrajectory stateTrajectory inputTrajectory stamps flat_map].
    rewrite !replicate_two_more, <- !(assoc_L (++)). reflexivity. }
  split; [exact Hout|]. intros Hch Hprior. rewrite Hout. clear Hout out'.
  split.
  - unfold aligned. cbn [timeTrajectory stateTrajectory inputTrajectory].
    rewrite !length_app, !length_replicate, length_stamps.
    cbn [length]. rewrite length_map.
    destruct concatOutput; [|cbn; lia].
    destruct (Hprior eq_refl) as [[[Hts Hsi] _] _]. lia.
  - cbn [timeTrajectory]. apply nondecreasing_stamps.
    + destruct concatOutput; [|reflexivity].
      destruct (Hprior eq_refl) as [[_ Hnd] _]. exact Hnd.
    + destruct concatOutput; [|reflexivity].
      destruct (Hprior eq_refl) as [_ Hlast]. exact Hlast.
    + exact Hch.
Qed.

End CallSequences.

(** * Copies, NaN bounds and shared containers *)

Section FurtherProperties.

Context {STATE_DIM INPUT_DIM : nat}.
Context {B : SystemOperatingTrajectoriesBase}.

#[local] Abbreviation Store :=
  (gmap positive (SystemOperatingPoint STATE_DIM INPUT_DIM)).

(** X7. [clone] is [const] on the whole store: it adds exactly one object,
    at an address that held none, and every object that was there is still
    there, unchanged. *)
Theorem clone_frame (this p : positive) (σ σ' : Store) :
  clone this σ = Some (p, σ') →
  (p ∉ dom σ) ∧ dom σ' = ({[p]} ∪ dom σ) ∧ size σ' = S (size σ) ∧
  ∀ a, a ≠ p → σ' !! a = σ !! a.
Proof.
  unfold clone. destruct (σ !! this) as [o|] eqn:Hthis; [|discriminate].
  cbn. intros [= <- <-].
  pose proof (is_fresh (dom σ)) as Hfresh.
  split; [exact Hfresh|]. split; [apply dom_insert_L|]. split.
  - apply map_size_insert_None, not_elem_of_dom, Hfresh.
  - intros a Ha. apply lookup_insert_ne. congruence.
Qed.

(** X8. A copy of a copy is a copy of the original: the three objects sit at
    three different addresses and [getSystemOperatingTrajectories] through
    any of the three pointers leaves the same containers, the two samples
    of the original's operating point after what was kept. *)
Theorem clone_of_clone (this p q : positive) (σ σ' σ'' : Store)
    (o : SystemOperatingPoint STATE_DIM INPUT_DIM) :
  σ !! this = Some o →
  clone this σ = Some (p, σ') →
  clone p σ' = Some (q, σ'') →
  (p ≠ this ∧ q ≠ this ∧ q ≠ p) ∧
  ∀ initialState startTime finalTime concatOutput out,
    let call :=
      getSystemOperatingTrajectories initialState startTime finalTime
        concatOutput in
    let out' :=
      {| timeTrajectory :=
           (if concatOutput then timeTrajectory out else []) ++
           [startTime; finalTime];
         stateTrajectory :=
           (if concatOutput then stateTrajectory out else []) ++
           [stateOperatingPoint_ o; stateOperatingPoint_ o];
         inputTrajectory :=
           (if concatOutput then inputTrajectory out else []) ++
           [inputOperatingPoint_ o; inputOperatingPoint_ o] |} in
    output_of (call_on this call out σ'') = Some out' ∧
    output_of (call_on p call out σ'') = Some out' ∧
    output_of (call_on q call out σ'') = Some out'.
Proof.
  intros Hthis H1 H2.
  destruct (clone_eq this σ o Hthis) as (E1 & Hne1 & Hnew1).
  rewrite E1 in H1. injection H1 as <- <-.
  set (p := fresh (dom σ)) in *.
  set (σ' := <[p := SystemOperatingPoint_copy o]> σ) in *.
  assert (Hp : σ' !! p = Some (SystemOperatingPoint_copy o))
    by apply lookup_insert_eq.
  assert (Ho : σ' !! this = Some o).
  { unfold σ'. rewrite lookup_insert_ne by exact Hne1. exact Hthis. }
  destruct (clone_eq p σ' _ Hp) as (E2 & Hne2 & Hnew2).
  rewrite E2 in H2. injection H2 as <- <-.
  set (q := fresh (dom σ')) in *.
  assert (Hq : q ≠ this) by (intros E; rewrite E, Ho in Hnew2; discriminate).
  split; [repeat split; assumption|].
  intros x s f concat out call out'. subst call.
  split; [|split].
  - change out' with (appended o s f concat out).
    apply call_on_getSystemOperatingTrajectories.
    rewrite lookup_insert_ne by exact Hq. exact Ho.
  - change out' with (appended (SystemOperatingPoint_copy o) s f concat out).
    apply call_on_getSystemOperatingTrajectories.
    rewrite lookup_insert_ne by exact Hne2. exact Hp.
  - change out' with
      (appended (SystemOperatingPoint_copy (SystemOperatingPoint_copy o))
         s f concat out).
    apply call_on_getSystemOperatingTrajectories, lookup_insert_eq.
Qed.

(** A double that is NaN compares [<=] with nothing. *)
Lemma is_nan_Prim2SF (a : scalar_t) :
  PrimFloat.is_nan a = true → Prim2SF a = S754_nan.
Proof.
  unfold PrimFloat.is_nan. rewrite FloatAxioms.eqb_spec.
  unfold SFeqb, SFcompare.
  destruct (Prim2SF a) as [[]|[]| |[] m e]; try discriminate;
    try reflexivity.
  all: rewrite Z.compare_refl;
    change (PosDef.Pos.compare_cont Eq) with Pos.compare;
    rewrite Pos.compare_refl; discriminate.
Qed.

Lemma is_nan_not_le (a b : scalar_t) :
  PrimFloat.is_nan a = true ∨ PrimFloat.is_nan b = true →
  scalar_le a b = false.
Proof.
  unfold scalar_le. rewrite leb_spec. unfold SFleb, SFcompare.
  intros [H|H]; apply is_nan_Prim2SF in H; rewrite H.
  - reflexivity.
  - destruct (Prim2SF a) as [[]|[]| |[] m e]; reflexivity.
Qed.

(** X9. NaN bounds are not rejected: when [startTime] or [finalTime] is NaN
    the call returns with both appended as they are, and the time stamps
    are not non-decreasing afterwards, whatever the containers held and
    whatever [concatOutput] is. *)
Theorem nan_bound_breaks_order
    (initialState : state_vector_t STATE_DIM) (startTime finalTime : scalar_t)
    (concatOutput : bool) (this : SystemOperatingPoint STATE_DIM INPUT_DIM)
    (out : Trajectories STATE_DIM INPUT_DIM) :
  PrimFloat.is_nan startTime = true ∨ PrimFloat.is_nan finalTime = true →
  let out' :=
    snd (exec (getSystemOperatingTrajectories initialState startTime finalTime
                 concatOutput) (this, out)) in
  timeTrajectory out' =
    (if concatOutput then timeTrajectory out else []) ++
    [startTime; finalTime] ∧
  nondecreasing (timeTrajectory out') = false.
Proof.
  intros Hnan out'. subst out'. rewrite exec_getSystemOperatingTrajectories.
  cbn [snd]. unfold appended, kept. cbn [timeTrajectory].
  split; [reflexivity|].
  rewrite nondecreasing_two_more, (is_nan_not_le _ _ Hnan).
  apply andb_false_r.
Qed.

End FurtherProperties.

Section SharedContainersProperties.

Context {DIM : nat}.
Context {B : SystemOperatingTrajectoriesBase}.

(** X10. With two different containers behind [stateTrajectory] and
    [inputTrajectory], the call by reference leaves in the time container
    and in the two containers what the call on three containers of their own
    leaves, and it writes to no other container. *)
Theorem by_reference_distinct
    (initialState : vec scalar_t DIM) (startTime finalTime : scalar_t)
    (stateTrajectory inputTrajectory : positive) (concatOutput : bool)
    (this : SystemOperatingPoint DIM DIM) (t : scalar_array_t)
    (h : positive → list (vec scalar_t DIM)) :
  stateTrajectory ≠ inputTrajectory →
  let fr' :=
    snd (getSystemOperatingTrajectories_by_reference initialState startTime
           finalTime stateTrajectory inputTrajectory concatOutput
           (this, t, h)) in
  let out' :=
    snd (exec (getSystemOperatingTrajectories initialState startTime finalTime
                 concatOutput)
           (this, mkTrajectories t (h stateTrajectory) (h inputTrajectory))) in
  fst (fst fr') = this ∧
  snd (fst fr') = ocs2.timeTrajectory out' ∧
  snd fr' stateTrajectory = ocs2.stateTrajectory out' ∧
  snd fr' inputTrajectory = ocs2.inputTrajectory out' ∧
  ∀ a, a ≠ stateTrajectory → a ≠ inputTrajectory → snd fr' a = h a.
Proof.
  intros Hne fr' out'. subst fr' out'.
  rewrite exec_getSystemOperatingTrajectories.
  destruct concatOutput; cbv -[app decide]; repeat split; intros;
    repeat (case_decide; subst; try congruence);
    rewrite <- ?(assoc_L (++)); reflexivity.
Qed.

(** X11. With one container behind both [stateTrajectory] and
    [inputTrajectory], the call leaves four new samples in it, the state
    operating point twice and then the input operating point twice, after
    what was kept, while the time container gets two: the shared container
    is never left with as many samples as there are time stamps added. *)
Theorem by_reference_same
    (initialState : vec scalar_t DIM) (startTime finalTime : scalar_t)
    (trajectory : positive) (concatOutput : bool)
    (this : SystemOperatingPoint DIM DIM) (t : scalar_array_t)
    (h : positive → list (vec scalar_t DIM)) :
  let fr' :=
    snd (getSystemOperatingTrajectories_by_reference initialState startTime
           finalTime trajectory trajectory concatOutput (this, t, h)) in
  snd (fst fr') = (if concatOutput then t else []) ++ [startTime; finalTime] ∧
  snd fr' trajectory =
    (if concatOutput then h trajectory else []) ++
    [stateOperatingPoint_ this; stateOperatingPoint_ this;
     inputOperatingPoint_ this; inputOperatingPoint_ this] ∧
  ∀ a, a ≠ trajectory → snd fr' a = h a.
Proof.
  intros fr'. subst fr'.
  destruct concatOutput; cbv -[app decide]; repeat split; intros;
    repeat (case_decide; subst; try congruence);
    rewrite <- ?(assoc_L (++)); reflexivity.
Qed.

End SharedContainersProperties.

(** * The properties on the example of the specification *)

Section OnExample.

Import Example.
#[local] Existing Instance headers.
#[local] Open Scope float_scope.

Lemma getSystemOperatingTrajectories_override_example :
  let out' :=
    snd (exec (getSystemOperatingTrajectories x_init 0 2 false)
           (point, segment)) in
  timeTrajectory out' = [0; 2] ∧
  stateTrajectory out' = [x_op; x_op] ∧
  inputTrajectory out' = [u_op; u_op].
Proof.
  exact (proj2 (getSystemOperatingTrajectories_override
                  x_init 0 2 point segment eq_refl)).
Defined.

Lemma getSystemOperatingTrajectories_ignores_example :
  snd (exec (getSystemOperatingTrajectories x_init 0 2 true)
         (point, segment)) =
  snd (exec (getSystemOperatingTrajectories x_init' 0 2 true)
         (bound_point, segment)).
Proof.
  exact (proj1 (getSystemOperatingTrajectories_ignores_initialState_and_binding
                  point bound_point x_init x_init' 0 2 true segment
                  eq_refl eq_refl)).
Defined.

Lemma clone_independent_example :
  ∃ p σ',
    clone 1%positive store = Some (p, σ') ∧ p ≠ 1%positive ∧
    ∀ changed,
      output_of (call_on p (getSystemOperatingTrajectories x_init 0 2 false)
                   segment (<[1%positive := changed]> σ')) =
      Some (mkTrajectories [0; 2] [x_op; x_op] [u_op; u_op]).
Proof.
  destruct (clone_independent 1%positive store bound_point eq_refl)
    as (p & σ' & o' & Hclone & Hne & _ & _ & _ & _ & _ & Hcalls).
  exists p, σ'. split; [exact Hclone|]. split; [exact Hne|].
  intros changed.
  exact (proj2 (proj1 (proj2 (proj2 (Hcalls x_init 0 2 false segment)))
                  changed)).
Defined.

Lemma default_constructed_example :
  exec (getSystemOperatingTrajectories x_init 0 2 false)
    (SystemOperatingPoint_default, segment) =
  exec (getSystemOperatingTrajectories x_init 0 2 false)
    (SystemOperatingPoint_ctor [# 0; 0] [# 0], segment).
Proof.
  refine (proj1 (default_constructed_as_zero_constructed [# 0; 0] [# 0] _ _)
            x_init 0 2 false segment);
    intros i; repeat (inv_fin i; [reflexivity|intros i]); inv_fin i.
Defined.

Lemma getSystemOperatingTrajectories_preserves_invariant_example :
  nondecreasing
    (timeTrajectory
       (snd (exec (getSystemOperatingTrajectories x_init 0 2 true)
               (point, segment)))) = true ∧
  trajectory_invariant
    (snd (exec (getSystemOperatingTrajectories x_init 0 2 true)
            (point, segment))).
Proof.
  destruct (getSystemOperatingTrajectories_preserves_invariant
              x_init 0 2 true point segment) as (_ & _ & Htime & Hinv).
  split.
  - apply Htime; [reflexivity|reflexivity|reflexivity|repeat constructor].
  - apply Hinv.
    + reflexivity.
    + intros _. repeat constructor.
    + split; [split; reflexivity|reflexivity].
Defined.

Lemma getSystemOperatingTrajectories_reversed_interval_example :
  getSystemOperatingTrajectories x_init 2 0 false (point, segment) =
    (tt, (point, mkTrajectories [2; 0] [x_op; x_op] [u_op; u_op])) ∧
  decreasing [2; 0] = true ∧
  nondecreasing [2; 0] = false.
Proof.
  destruct (getSystemOperatingTrajectories_reversed_interval
              x_init 2 0 false point segment eq_refl)
    as (Hcall & _ & Hdec & Hnot & _).
  exact (conj Hcall (conj Hdec Hnot)).
Defined.

(** C7 as it is stated, without the prior time stamps being non-decreasing,
    fails: with prior time stamps 5, 3 (all [<= startTime = 10]),
    [startTime = 10 <= finalTime = 11] and [concatOutput = true], the time
    stamps after the call are 5, 3, 10, 11, which are not non-decreasing.
    The time stamps in the containers are the caller's: the call appends to
    them and does not put them in order. *)
Lemma concat_keeps_prior_disorder :
  scalar_le 10 11 = true ∧
  Forall (λ t, scalar_le t 10 = true) (timeTrajectory disordered) ∧
  timeTrajectory
    (snd (exec (getSystemOperatingTrajectories x_init 10 11 true)
            (point, disordered))) = [5; 3; 10; 11] ∧
  nondecreasing
    (timeTrajectory
       (snd (exec (getSystemOperatingTrajectories x_init 10 11 true)
               (point, disordered)))) = false.
Proof.
  split; [reflexivity|]. split; [repeat constructor|]. split; reflexivity.
Qed.

End OnExample.

Section MoreOnExample.

Import Example.
#[local] Existing Instance headers.
#[local] Open Scope float_scope.

Lemma run_calls_aligned_example :
  aligned (snd (exec (run_calls calls) (point, segment))).
Proof.
  exact (run_calls_aligned calls point segment (conj eq_refl eq_refl)).
Defined.

Lemma run_calls_constant_samples_example :
  Forall (λ x, x = x_op)
    (stateTrajectory (snd (exec (run_calls calls) (point, segment)))) ∧
  Forall (λ u, u = u_op)
    (inputTrajectory (snd (exec (run_calls calls) (point, segment)))).
Proof.
  apply (run_calls_constant_samples calls point segment);
    repeat constructor.
Defined.

Lemma segment_calls_build_example :
  timeTrajectory
    (snd (exec (run_calls (segment_calls true first_request more_requests))
            (point, segment))) = [-2; 0; 0; 2; 2; 3.5; 3.5; 3.5] ∧
  trajectory_invariant
    (snd (exec (run_calls (segment_calls true first_request more_requests))
            (point, segment))).
Proof.
  destruct (segment_calls_build true first_request more_requests point segment)
    as [Hout Hinv].
  split; [rewrite Hout; reflexivity|].
  apply Hinv; [reflexivity|]. intros _.
  split; [split; [split; reflexivity|reflexivity]|reflexivity].
Defined.

Lemma clone_frame_example :
  (copy_address ∉ dom store) ∧ size store' = 2%nat ∧
  store' !! 1%positive = Some bound_point.
Proof.
  destruct (clone_frame 1%positive copy_address store store' eq_refl)
    as (Hfresh & _ & Hsize & Hframe).
  split; [exact Hfresh|]. split; [exact Hsize|].
  rewrite Hframe; [reflexivity|].
  intros E. apply Hfresh. rewrite <- E. apply elem_of_dom. eexists.
  reflexivity.
Defined.

Lemma clone_of_clone_example :
  copy_address' ≠ copy_address ∧
  output_of (call_on copy_address'
               (getSystemOperatingTrajectories x_init 0 2 false) segment
               store'') =
  Some (mkTrajectories [0; 2] [x_op; x_op] [u_op; u_op]).
Proof.
  destruct (clone_of_clone 1%positive copy_address copy_address'
              store store' store'' bound_point eq_refl eq_refl eq_refl)
    as [(_ & _ & Hne) Hcalls].
  split; [exact Hne|].
  exact (proj2 (proj2 (Hcalls x_init 0 2 false segment))).
Defined.

Lemma nan_bound_breaks_order_example :
  timeTrajectory
    (snd (exec (getSystemOperatingTrajectories x_init nan 2 false)
            (point, segment))) = [nan; 2] ∧
  nondecreasing
    (timeTrajectory
       (snd (exec (getSystemOperatingTrajectories x_init nan 2 false)
               (point, segment)))) = false.
Proof.
  exact (nan_bound_breaks_order x_init nan 2 false point segment
           (or_introl eq_refl)).
Defined.

Lemma by_reference_distinct_example :
  snd (snd (getSystemOperatingTrajectories_by_reference x_init 0 2
         1%positive 2%positive false (square_point, [], no_samples)))
    1%positive = [x_op; x_op] ∧
  snd (snd (getSystemOperatingTrajectories_by_reference x_init 0 2
         1%positive 2%positive false (square_point, [], no_samples)))
    2%positive = [x_init; x_init].
Proof.
  assert (Hne : 1%positive ≠ 2%positive) by discriminate.
  destruct (by_reference_distinct x_init 0 2 1%positive 2%positive false
              square_point [] no_samples Hne)
    as (_ & _ & Hs & Hi & _).
  split; [exact Hs|exact Hi].
Defined.

(** One container for both: four samples against two time stamps. *)
Remark by_reference_same_example :
  snd (snd (getSystemOperatingTrajectories_by_reference x_init 0 2
         1%positive 1%positive false (square_point, [], no_samples)))
    1%positive = [x_op; x_op; x_init; x_init].
Proof. reflexivity. Qed.

End MoreOnExample.

End ocs2.
